(** * The Keyp provider of Auth.js: descriptor construction and profile mapping

    Shallow embedding of [packages/core/src/providers/keyp.ts].

    The file exports one function, [Keyp], which reads two properties of the
    configuration object it is given and one variable of [process.env], and
    returns an OIDC provider descriptor.  The descriptor carries a method,
    [profile], which reads five properties of the user-info object it is
    given and returns a freshly built object.

    JavaScript passes objects by reference, so both functions are written in
    a small store-passing monad over a heap of objects: that is what makes
    statements such as "the input is not mutated" or "the result does not
    depend on anything else" provable facts rather than conventions. *)

From stdpp Require Import gmap strings list fin_maps.
From Stdlib Require Import ZArith.

Open Scope string_scope.

(** ** A fragment of JavaScript *)

Module JS.

(** Values.  Properties of the objects handled here hold data that is only
    copied or tested for truthiness, so nested objects are kept by value.
    [VNum] stands for the integral numbers. *)
#[warnings="-register-all"]
Inductive value :=
| VUndefined
| VNull
| VBool (b : bool)
| VNum (z : Z)
| VStr (s : string)
| VObj (o : gmap string value).

Abbreviation object := (gmap string value).

(** [ToBoolean]: the test performed by [? :], [||] and [if]. *)
Definition ToBoolean (v : value) : bool :=
  match v with
  | VUndefined | VNull => false
  | VBool b => b
  | VNum z => negb (z =? 0)%Z
  | VStr s => negb (String.eqb s "")
  | VObj _ => true
  end.

(** Reading a property that an object does not have yields [undefined].
    (None of the names read by this file is inherited from
    [Object.prototype], so own properties are all there is to look at.) *)
Definition get (o : object) (k : string) : value := default VUndefined (o !! k).

(** An object literal [{ k1: v1, ..., kn: vn }]: the properties are defined
    from left to right, a later one replacing an earlier one of that name. *)
Definition object_literal (fields : list (string * value)) : object :=
  foldl (fun o kv => <[kv.1 := kv.2]> o) ∅ fields.

(** Objects live in a heap and are handed around as locations.  A location
    is an index into the heap; allocation appends. *)
Definition loc := nat.

(** [process.env] maps variable names to strings.  [env_reads] is a ghost
    log of the variables that have been read, oldest first. *)
Record state := State {
  heap : list object;
  process_env : gmap string string;
  env_reads : list string;
}.

(** The error kinds.  [TypeError] is raised by the language itself; the two
    others are the kinds that the provider contract names for a rejected
    configuration and for user-info without a subject. *)
Inductive error := TypeError | ConfigurationError | ProtocolComplianceError.

Inductive completion (A : Type) :=
| Normal (a : A)
| Throw (e : error).
Arguments Normal {A} a.
Arguments Throw {A} e.

(** Computations: a state in, a completion and a state out. *)
Definition M (A : Type) : Type := state → completion A * state.

Definition ret {A} (a : A) : M A := fun s => (Normal a, s).

Definition bind {A B} (m : M A) (f : A → M B) : M B := fun s =>
  match m s with
  | (Normal a, s') => f a s'
  | (Throw e, s') => (Throw e, s')
  end.

(** [o.k] for an object reference [o].  A location outside the heap does not
    denote an object; the read is then reported as a [TypeError]. *)
Definition Get (o : loc) (k : string) : M value := fun s =>
  match heap s !! o with
  | Some obj => (Normal (get obj k), s)
  | None => (Throw TypeError, s)
  end.

(** Evaluating an object literal allocates the object. *)
Definition NewObject (fields : list (string * value)) : M loc := fun s =>
  (Normal (length (heap s)),
   State (heap s ++ [object_literal fields]) (process_env s) (env_reads s)).

(** [process.env.NAME]: [None] stands for [undefined]. *)
Definition getenv (name : string) : M (option string) := fun s =>
  (Normal (process_env s !! name),
   State (heap s) (process_env s) (env_reads s ++ [name])).

(** [e || d] on an optional string [e] and a string [d]. *)
Definition or_else (e : option string) (d : string) : string :=
  match e with
  | Some v => if String.eqb v "" then d else v
  | None => d
  end.

End JS.

Import JS.

Notation "'let*' x ':=' m 'in' k" := (bind m (fun x => k))
  (at level 10, x name, m at level 100, k at level 200, only parsing).

(** ** The descriptor

    [OIDCConfig] as far as [Keyp] fills it in.  [options] holds the
    configuration object itself: a reference in the running program
    ([O := loc]), the object it points to in a snapshot ([O := object]). *)

Record AuthorizationParams := { scope : value }.

Record Authorization := {
  authorization_url : string;
  params : AuthorizationParams;
}.

Record Token := { token_url : string }.

Record Client := { token_endpoint_auth_method : string }.

Record Style := {
  logo : string;
  logoDark : string;
  bg : string;
  text : string;
  bgDark : string;
  textDark : string;
}.

Record OIDCConfig (O : Type) := {
  id : string;
  name : string;
  type : string;
  clientId : value;
  issuer : string;
  wellKnown : string;
  authorization : Authorization;
  token : Token;
  userinfo : string;
  client : Client;
  profile_fn : loc → M loc;
  style : Style;
  options : O;
}.
Arguments id {O}. Arguments name {O}. Arguments type {O}.
Arguments clientId {O}. Arguments issuer {O}. Arguments wellKnown {O}.
Arguments authorization {O}. Arguments token {O}. Arguments userinfo {O}.
Arguments client {O}. Arguments profile_fn {O}. Arguments style {O}.
Arguments options {O}.

(** ** The profile mapping (source lines 126-134) *)

Definition profile (profile : loc) : M loc :=
  let* sub := Get profile "sub" in
  let* username := Get profile "username" in
  let* email := Get profile "email" in
  let* imageSrc := Get profile "imageSrc" in
  let* address := Get profile "address" in
  NewObject [("id", sub); ("name", username); ("email", email);
             ("image", imageSrc); ("address", address)].

(** ** The provider (source lines 102-145) *)

Definition defaultScope : string := "openid email".

Definition Keyp (config : loc) : M (OIDCConfig loc) :=
  let* clientId := Get config "clientId" in
  let* scope := Get config "scope" in
  let* env_domain := getenv "NEXT_PUBLIC_KEYP_API_DOMAIN" in
  let KEYP_API_DOMAIN := or_else env_domain "https://api.usekeyp.com" in
  ret {|
    id := "keyp";
    name := "Keyp";
    type := "oidc";
    clientId := clientId;
    issuer := "https://api.usekeyp.com";
    wellKnown := KEYP_API_DOMAIN ++ "/oauth/.well-known/openid-configuration";
    authorization := {|
      authorization_url := "https://app.usekeyp.com/oauth/auth";
      params := {| scope := if ToBoolean scope then scope else VStr defaultScope |};
    |};
    token := {| token_url := "https://api.usekeyp.com/oauth/token" |};
    userinfo := "https://api.usekeyp.com/oauth/me";
    client := {| token_endpoint_auth_method := "none" |};
    profile_fn := profile;
    style := {|
      logo := "/keyp.svg";
      logoDark := "/keyp-dark.svg";
      bg := "#fff";
      text := "#005285";
      bgDark := "#005285";
      textDark := "#fff";
    |};
    options := config;
  |}.

(** The descriptor with [options] replaced by the object it refers to. *)
Definition snapshot (h : list object) (d : OIDCConfig loc) : option (OIDCConfig object) :=
  cfg ← h !! options d;
  Some {|
    id := id d; name := name d; type := type d; clientId := clientId d;
    issuer := issuer d; wellKnown := wellKnown d;
    authorization := authorization d; token := token d;
    userinfo := userinfo d; client := client d; profile_fn := profile_fn d;
    style := style d; options := cfg;
  |}.

(** A call that returns normally with a reference to the object [out]. *)
Definition returns_object (m : M loc) (s : state) (out : object) : Prop :=
  ∃ r s', m s = (Normal r, s') ∧ heap s' !! r = Some out.

(** The names of the claims that [profile] reads. *)
Definition claim_names : list string :=
  ["sub"; "username"; "email"; "imageSrc"; "address"].

(** The one variable of [process.env] that [Keyp] consults, and the path
    that it appends to the API domain. *)
Abbreviation KEYP_ENV := "NEXT_PUBLIC_KEYP_API_DOMAIN" (only parsing).
Abbreviation WELL_KNOWN_PATH := "/oauth/.well-known/openid-configuration" (only parsing).

(** The descriptor with another value under [options], and with another
    discovery URL: they serve to compare two descriptors apart from that
    property. *)
Definition with_options {O O' : Type} (d : OIDCConfig O) (o : O') : OIDCConfig O' :=
  {| id := id d; name := name d; type := type d; clientId := clientId d;
     issuer := issuer d; wellKnown := wellKnown d;
     authorization := authorization d; token := token d;
     userinfo := userinfo d; client := client d; profile_fn := profile_fn d;
     style := style d; options := o |}.

Definition with_wellKnown {O : Type} (d : OIDCConfig O) (w : string) : OIDCConfig O :=
  {| id := id d; name := name d; type := type d; clientId := clientId d;
     issuer := issuer d; wellKnown := w;
     authorization := authorization d; token := token d;
     userinfo := userinfo d; client := client d; profile_fn := profile_fn d;
     style := style d; options := options d |}.

(** The object that [profile] builds from five values. *)
Abbreviation result_of a b c d e :=
  ({[ "id" := a; "name" := b; "email" := c; "image" := d; "address" := e ]} : object)
  (only parsing).

(** ** Evaluation lemmas *)

Lemma Get_eval (s : state) (o : loc) (obj : object) (k : string) :
  heap s !! o = Some obj → Get o k s = (Normal (get obj k), s).
Proof. intros H. unfold Get. by rewrite H. Qed.

Lemma identity_literal (a b c d e : value) :
  object_literal [("id", a); ("name", b); ("email", c); ("image", d); ("address", e)]
  = {[ "id" := a; "name" := b; "email" := c; "image" := d; "address" := e ]}.
Proof. vm_compute. reflexivity. Qed.

Lemma profile_eval (s : state) (p : loc) (claims : object) :
  heap s !! p = Some claims →
  profile p s =
    (Normal (length (heap s)),
     State (heap s ++ [ {[ "id" := get claims "sub";
                           "name" := get claims "username";
                           "email" := get claims "email";
                           "image" := get claims "imageSrc";
                           "address" := get claims "address" ]} ])
           (process_env s) (env_reads s)).
Proof.
  intros H. unfold profile, bind.
  rewrite !(Get_eval _ _ _ _ H). unfold NewObject.
  by rewrite identity_literal.
Qed.

Lemma profile_returns (s : state) (p : loc) (claims : object) :
  heap s !! p = Some claims →
  returns_object (profile p) s
    {[ "id" := get claims "sub";
       "name" := get claims "username";
       "email" := get claims "email";
       "image" := get claims "imageSrc";
       "address" := get claims "address" ]}.
Proof.
  intros H. eexists _, _. split; [by apply profile_eval|].
  cbn [heap]. by apply list_lookup_middle.
Qed.

Lemma returns_object_unique (m : M loc) (s : state) (o1 o2 : object) :
  returns_object m s o1 → returns_object m s o2 → o1 = o2.
Proof.
  intros (r1 & s1 & E1 & L1) (r2 & s2 & E2 & L2).
  rewrite E1 in E2. injection E2 as -> ->. congruence.
Qed.

(** On a location that holds no object the first read throws. *)
Lemma profile_dangling (s : state) (p : loc) :
  heap s !! p = None → profile p s = (Throw TypeError, s).
Proof. intros H. unfold profile, bind, Get. by rewrite H. Qed.

(** [profile] does not read [process.env], whether it returns or throws. *)
Lemma profile_env (p : loc) (s : state) :
  env_reads (snd (profile p s)) = env_reads s.
Proof.
  destruct (heap s !! p) as [claims|] eqn:H.
  - by rewrite (profile_eval _ _ _ H).
  - by rewrite (profile_dangling _ _ H).
Qed.

(** [keyp_run H] unfolds a call of [Keyp] on a configuration that [H] places
    in the heap; [keyp_result H] moreover supplies the descriptor and the
    final state, and reduces the projections applied to them. *)
Ltac keyp_run H :=
  unfold Keyp, bind, getenv, ret;
  rewrite !(Get_eval _ _ _ _ H);
  cbn beta iota zeta.

Ltac keyp_result H :=
  keyp_run H; eexists _, _; split; [reflexivity|];
  cbn [scope params authorization clientId wellKnown issuer authorization_url
       token token_url userinfo client token_endpoint_auth_method options
       heap process_env env_reads].

(** ** The descriptor builder *)

(** C1.  Whatever the configuration, [Keyp] returns a descriptor, and the
    [scope] of its authorization parameters is negotiated as follows: a
    non-empty string under [config.scope] is taken verbatim; when
    [config.scope] is absent, [undefined] or the empty string, the scope is
    the fixed default ["openid email"].  The result is always one of the
    two, never a combination. *)
Theorem Keyp_scope_negotiation (s : state) (config : loc) (cfg : object) :
  heap s !! config = Some cfg →
  ∃ d s', Keyp config s = (Normal d, s')
    ∧ (∀ str, cfg !! "scope" = Some (VStr str) → str ≠ "" →
         scope (params (authorization d)) = VStr str)
    ∧ (cfg !! "scope" = None ∨ cfg !! "scope" = Some VUndefined
         ∨ cfg !! "scope" = Some (VStr "") →
         scope (params (authorization d)) = VStr "openid email")
    ∧ (scope (params (authorization d)) = get cfg "scope"
         ∨ scope (params (authorization d)) = VStr "openid email").
Proof.
  intros H. keyp_result H. unfold get. split; [|split].
  - intros str -> Hne. cbn.
    destruct (String.eqb_spec str ""); [done|reflexivity].
  - intros [-> | [-> | ->]]; reflexivity.
  - destruct (ToBoolean _); [by left | by right].
Qed.

Lemma Keyp_scope_negotiation_witness :
  ∃ d s',
    Keyp 0 (State [ {[ "clientId" := VStr "abc123";
                       "scope" := VStr "openid profile" ]} ] ∅ [])
      = (Normal d, s')
    ∧ scope (params (authorization d)) = VStr "openid profile".
Proof.
  destruct (Keyp_scope_negotiation
              (State [ {[ "clientId" := VStr "abc123";
                          "scope" := VStr "openid profile" ]} ] ∅ [])
              0 _ eq_refl) as (d & s' & Hrun & Hgiven & _).
  exists d, s'. split; [exact Hrun|].
  apply Hgiven; [reflexivity | discriminate].
Defined.

(** C5.  Whatever the configuration, the descriptor asks for the client
    authentication method ["none"]. *)
Theorem Keyp_client_auth_none (s : state) (config : loc) (cfg : object) :
  heap s !! config = Some cfg →
  ∃ d s', Keyp config s = (Normal d, s')
    ∧ token_endpoint_auth_method (client d) = "none".
Proof. intros H. by keyp_result H. Qed.

Lemma Keyp_client_auth_none_witness :
  ∃ d s',
    Keyp 0 (State [ {[ "clientId" := VStr "abc123";
                       "client" := VObj {[ "token_endpoint_auth_method" :=
                                             VStr "client_secret_basic" ]} ]} ]
                  ∅ [])
      = (Normal d, s')
    ∧ token_endpoint_auth_method (client d) = "none".
Proof.
  exact (Keyp_client_auth_none
           (State [ {[ "clientId" := VStr "abc123";
                       "client" := VObj {[ "token_endpoint_auth_method" :=
                                             VStr "client_secret_basic" ]} ]} ]
                  ∅ [])
           0 _ eq_refl).
Defined.

(** C6, as the code has it.  A configuration whose [clientId] is missing,
    [undefined] or the empty string is not rejected by [Keyp]: no error is
    raised, and the descriptor that is returned carries that [clientId]
    unchanged. *)
Theorem Keyp_clientId_not_checked (s : state) (config : loc) (cfg : object) :
  heap s !! config = Some cfg →
  cfg !! "clientId" = None ∨ cfg !! "clientId" = Some VUndefined
    ∨ cfg !! "clientId" = Some (VStr "") →
  ∃ d s', Keyp config s = (Normal d, s')
    ∧ clientId d = get cfg "clientId"
    ∧ (clientId d = VUndefined ∨ clientId d = VStr "").
Proof.
  intros H Hid. keyp_result H. split; [reflexivity|].
  unfold get. destruct Hid as [-> | [-> | ->]]; cbn; auto.
Qed.

Lemma Keyp_clientId_not_checked_witness :
  ∃ d s',
    Keyp 0 (State [ {[ "clientId" := VStr ""; "redirectUrl" := VStr "https://example.com/api/auth/callback/keyp" ]} ] ∅ [])
      = (Normal d, s')
    ∧ clientId d = VStr "".
Proof.
  destruct (Keyp_clientId_not_checked
              (State [ {[ "clientId" := VStr ""; "redirectUrl" := VStr "https://example.com/api/auth/callback/keyp" ]} ] ∅ [])
              0 _ eq_refl)
    as (d & s' & Hrun & Hid & _); [right; right; reflexivity|].
  exists d, s'. split; [exact Hrun | exact Hid].
Defined.

(** C6 as stated fails: on the configuration [{}], which has no [clientId],
    [Keyp] returns a descriptor (with [clientId] undefined) instead of
    raising a [ConfigurationError]. *)
Lemma Keyp_missing_clientId_returns :
  ∃ d s',
    Keyp 0 (State [∅] ∅ []) = (Normal d, s')
    ∧ clientId d = VUndefined
    ∧ fst (Keyp 0 (State [∅] ∅ [])) ≠ Throw ConfigurationError.
Proof.
  eexists _, _. split; [reflexivity|]. split; [reflexivity|]. discriminate.
Qed.

(** C7, as the code has it.  The discovery document is located under the
    value of [NEXT_PUBLIC_KEYP_API_DOMAIN] when that variable holds a
    non-empty string, and under ["https://api.usekeyp.com"] when it is unset
    or empty.  The issuer and the authorization, token and userinfo
    endpoints are constants.  Building the descriptor reads that variable
    once, reads no other, and leaves the environment as it was; the
    descriptor's [profile] method does not read the environment at all. *)
Theorem Keyp_endpoint_resolution (s : state) (config : loc) (cfg : object) :
  heap s !! config = Some cfg →
  ∃ d s', Keyp config s = (Normal d, s')
    ∧ (∀ domain, process_env s !! KEYP_ENV = Some domain → domain ≠ "" →
         wellKnown d = domain ++ WELL_KNOWN_PATH)
    ∧ (process_env s !! KEYP_ENV = None ∨ process_env s !! KEYP_ENV = Some "" →
         wellKnown d = "https://api.usekeyp.com" ++ WELL_KNOWN_PATH)
    ∧ issuer d = "https://api.usekeyp.com"
    ∧ authorization_url (authorization d) = "https://app.usekeyp.com/oauth/auth"
    ∧ token_url (token d) = "https://api.usekeyp.com/oauth/token"
    ∧ userinfo d = "https://api.usekeyp.com/oauth/me"
    ∧ env_reads s' = (env_reads s ++ [KEYP_ENV])%list
    ∧ process_env s' = process_env s
    ∧ (∀ p t, env_reads (snd (profile_fn d p t)) = env_reads t).
Proof.
  intros H. keyp_result H. repeat split.
  - intros domain -> Hne. cbn.
    destruct (String.eqb_spec domain ""); [done|reflexivity].
  - intros [-> | ->]; reflexivity.
  - intros p t. apply profile_env.
Qed.

Lemma Keyp_endpoint_resolution_witness :
  ∃ d s',
    Keyp 0 (State [ {[ "clientId" := VStr "abc123" ]} ]
                  {[ KEYP_ENV := "http://localhost:4000" ]} [])
      = (Normal d, s')
    ∧ wellKnown d = "http://localhost:4000/oauth/.well-known/openid-configuration"
    ∧ issuer d = "https://api.usekeyp.com"
    ∧ env_reads s' = [KEYP_ENV].
Proof.
  destruct (Keyp_endpoint_resolution
              (State [ {[ "clientId" := VStr "abc123" ]} ]
                     {[ KEYP_ENV := "http://localhost:4000" ]} [])
              0 _ eq_refl)
    as (d & s' & Hrun & Hset & _ & Hissuer & _ & _ & _ & Hreads & _).
  exists d, s'. split; [exact Hrun|]. split; [|split].
  - apply (Hset "http://localhost:4000"); [reflexivity | discriminate].
  - exact Hissuer.
  - exact Hreads.
Defined.

(** C7 as stated fails when the variable is set to the empty string: the
    discovery document is then located under the default domain, not under
    the (empty) value of the variable. *)
Lemma Keyp_empty_override_uses_default :
  ∃ d s',
    Keyp 0 (State [ {[ "clientId" := VStr "abc123" ]} ] {[ KEYP_ENV := "" ]} [])
      = (Normal d, s')
    ∧ ({[ KEYP_ENV := "" ]} : gmap string string) !! KEYP_ENV = Some ""
    ∧ wellKnown d = "https://api.usekeyp.com/oauth/.well-known/openid-configuration"
    ∧ wellKnown d ≠ "" ++ WELL_KNOWN_PATH.
Proof.
  eexists _, _. split; [reflexivity|]. split; [reflexivity|].
  split; [reflexivity|]. discriminate.
Qed.

(** C8.  Two calls of [Keyp], in any two states, on configuration objects
    with the same contents and under the same value of
    [NEXT_PUBLIC_KEYP_API_DOMAIN], return descriptors that are equal once
    [options] is read through: nothing else in the heap or the environment
    has any influence.  The calls change neither the heap nor the
    environment. *)
Theorem Keyp_deterministic (s1 s2 : state) (c1 c2 : loc) (cfg : object) :
  heap s1 !! c1 = Some cfg →
  heap s2 !! c2 = Some cfg →
  process_env s1 !! KEYP_ENV = process_env s2 !! KEYP_ENV →
  ∃ d1 s1' d2 s2' v,
    Keyp c1 s1 = (Normal d1, s1')
    ∧ Keyp c2 s2 = (Normal d2, s2')
    ∧ snapshot (heap s1') d1 = Some v
    ∧ snapshot (heap s2') d2 = Some v
    ∧ heap s1' = heap s1 ∧ process_env s1' = process_env s1
    ∧ heap s2' = heap s2 ∧ process_env s2' = process_env s2.
Proof.
  intros H1 H2 Henv. keyp_run H1. keyp_run H2.
  eexists _, _, _, _, _. split; [reflexivity|]. split; [reflexivity|].
  unfold snapshot. cbn [options heap process_env].
  rewrite H1, H2, Henv. done.
Qed.

Lemma Keyp_deterministic_witness :
  ∃ d1 s1' d2 s2' v,
    Keyp 0 (State [ {[ "clientId" := VStr "abc123" ]} ]
                  {[ KEYP_ENV := "http://localhost:4000" ]} [])
      = (Normal d1, s1')
    ∧ Keyp 1 (State [ ∅; {[ "clientId" := VStr "abc123" ]} ]
                    {[ KEYP_ENV := "http://localhost:4000"; "NODE_ENV" := "test" ]}
                    ["NODE_ENV"])
      = (Normal d2, s2')
    ∧ snapshot (heap s1') d1 = Some v
    ∧ snapshot (heap s2') d2 = Some v.
Proof.
  destruct (Keyp_deterministic
           (State [ {[ "clientId" := VStr "abc123" ]} ]
                  {[ KEYP_ENV := "http://localhost:4000" ]} [])
           (State [ ∅; {[ "clientId" := VStr "abc123" ]} ]
                  {[ KEYP_ENV := "http://localhost:4000"; "NODE_ENV" := "test" ]}
                  ["NODE_ENV"])
           0 1 _ eq_refl eq_refl)
    as (d1 & s1' & d2 & s2' & v & E1 & E2 & V1 & V2 & _); [reflexivity|].
  exists d1, s1', d2, s2', v. repeat split; assumption.
Defined.

(** ** The profile mapping *)

(** C2.  The [id] of the object that [profile] returns is the [sub] claim
    itself, whatever it is; in particular a non-empty string is neither
    transformed, truncated nor case-folded. *)
Theorem profile_id_is_subject (s : state) (p : loc) (claims : object) (sub : value) :
  heap s !! p = Some claims →
  claims !! "sub" = Some sub →
  ∃ out, returns_object (profile p) s out ∧ out !! "id" = Some sub.
Proof.
  intros H Hsub. eexists. split; [by apply profile_returns|].
  rewrite lookup_insert_eq. unfold get. by rewrite Hsub.
Qed.

Lemma profile_id_is_subject_witness :
  ∃ out,
    returns_object (profile 0)
      (State [ {[ "sub" := VStr "User-0xAbC"; "username" := VStr "alice" ]} ] ∅ []) out
    ∧ out !! "id" = Some (VStr "User-0xAbC").
Proof.
  exact (profile_id_is_subject
           (State [ {[ "sub" := VStr "User-0xAbC"; "username" := VStr "alice" ]} ] ∅ [])
           0 _ (VStr "User-0xAbC") eq_refl eq_refl).
Defined.

(** C3, as the code has it.  The provider-specific [address] claim is passed
    through under the top-level key [address] of the result, which has no
    [extensions] property.  On the claims of scenario 3 the result is
    [{id: "u1", name: "alice", email: "a@x.com", image: "https://x/img.png",
    address: "0xabc"}]. *)
Theorem profile_address_passthrough (s : state) (p : loc) (claims : object) :
  heap s !! p = Some claims →
  ∃ out, returns_object (profile p) s out
    ∧ out !! "address" = Some (get claims "address")
    ∧ out !! "extensions" = None
    ∧ (claims = {[ "sub" := VStr "u1"; "username" := VStr "alice";
                   "email" := VStr "a@x.com";
                   "imageSrc" := VStr "https://x/img.png";
                   "address" := VStr "0xabc" ]} →
       out = {[ "id" := VStr "u1"; "name" := VStr "alice";
                "email" := VStr "a@x.com";
                "image" := VStr "https://x/img.png";
                "address" := VStr "0xabc" ]}).
Proof.
  intros H. eexists. split; [by apply profile_returns|].
  split; [|split].
  - by simplify_map_eq.
  - by simplify_map_eq.
  - intros ->. reflexivity.
Qed.

Lemma profile_address_passthrough_witness :
  ∃ out,
    returns_object (profile 0)
      (State [ {[ "sub" := VStr "u1"; "username" := VStr "alice";
                  "email" := VStr "a@x.com";
                  "imageSrc" := VStr "https://x/img.png";
                  "address" := VStr "0xabc" ]} ] ∅ []) out
    ∧ out = {[ "id" := VStr "u1"; "name" := VStr "alice";
               "email" := VStr "a@x.com";
               "image" := VStr "https://x/img.png";
               "address" := VStr "0xabc" ]}.
Proof.
  destruct (profile_address_passthrough
              (State [ {[ "sub" := VStr "u1"; "username" := VStr "alice";
                          "email" := VStr "a@x.com";
                          "imageSrc" := VStr "https://x/img.png";
                          "address" := VStr "0xabc" ]} ] ∅ [])
              0 _ eq_refl) as (out & Hrun & _ & _ & Hout).
  exists out. split; [exact Hrun | exact (Hout eq_refl)].
Defined.

(** C3 as stated fails.  On the claims of scenario 3 the result has no
    [extensions] property, so it is not the object that the scenario
    expects; and a further claim such as [locale] is dropped, not passed
    through. *)
Lemma profile_has_no_extensions :
  (∃ out,
     returns_object (profile 0)
       (State [ {[ "sub" := VStr "u1"; "username" := VStr "alice";
                   "email" := VStr "a@x.com";
                   "imageSrc" := VStr "https://x/img.png";
                   "address" := VStr "0xabc" ]} ] ∅ []) out
     ∧ out !! "address" = Some (VStr "0xabc")
     ∧ out !! "extensions" = None)
  ∧ ¬ returns_object (profile 0)
        (State [ {[ "sub" := VStr "u1"; "username" := VStr "alice";
                    "email" := VStr "a@x.com";
                    "imageSrc" := VStr "https://x/img.png";
                    "address" := VStr "0xabc" ]} ] ∅ [])
        {[ "id" := VStr "u1"; "name" := VStr "alice";
           "email" := VStr "a@x.com";
           "image" := VStr "https://x/img.png";
           "extensions" := VObj {[ "address" := VStr "0xabc" ]} ]}
  ∧ (∃ out,
       returns_object (profile 0)
         (State [ {[ "sub" := VStr "u1"; "locale" := VStr "en" ]} ] ∅ []) out
       ∧ out !! "extensions" = None
       ∧ out !! "locale" = None).
Proof.
  split; [|split].
  - eexists. split; [by apply profile_returns|]. split; reflexivity.
  - intros Hclaimed.
    eapply returns_object_unique in Hclaimed;
      [|by apply profile_returns].
    apply (f_equal (λ o : object, o !! "extensions")) in Hclaimed.
    discriminate Hclaimed.
  - eexists. split; [by apply profile_returns|]. split; reflexivity.
Qed.

(** C4, as the code has it.  [profile] raises no error on claims that lack
    [username], [email] or [imageSrc]: the corresponding property of the
    result is then [undefined], not the empty string.  On the claims
    [{sub: "u2"}] the result is [{id: "u2", name: undefined,
    email: undefined, image: undefined, address: undefined}]. *)
Theorem profile_missing_optional_claims (s : state) (p : loc) (claims : object) :
  heap s !! p = Some claims →
  ∃ out, returns_object (profile p) s out
    ∧ (claims !! "username" = None → out !! "name" = Some VUndefined)
    ∧ (claims !! "email" = None → out !! "email" = Some VUndefined)
    ∧ (claims !! "imageSrc" = None → out !! "image" = Some VUndefined)
    ∧ (claims = {[ "sub" := VStr "u2" ]} →
       out = {[ "id" := VStr "u2"; "name" := VUndefined;
                "email" := VUndefined; "image" := VUndefined;
                "address" := VUndefined ]}).
Proof.
  intros H. eexists. split; [by apply profile_returns|].
  unfold get. repeat split.
  - intros ->. by simplify_map_eq.
  - intros ->. by simplify_map_eq.
  - intros ->. by simplify_map_eq.
  - intros ->. reflexivity.
Qed.

Lemma profile_missing_optional_claims_witness :
  ∃ out,
    returns_object (profile 0) (State [ {[ "sub" := VStr "u2" ]} ] ∅ []) out
    ∧ out !! "name" = Some VUndefined
    ∧ out = {[ "id" := VStr "u2"; "name" := VUndefined;
               "email" := VUndefined; "image" := VUndefined;
               "address" := VUndefined ]}.
Proof.
  destruct (profile_missing_optional_claims
              (State [ {[ "sub" := VStr "u2" ]} ] ∅ []) 0 _ eq_refl)
    as (out & Hrun & Hname & _ & _ & Hout).
  exists out. split; [exact Hrun|].
  split; [exact (Hname eq_refl) | exact (Hout eq_refl)].
Defined.

(** C4 as stated fails in its scenario: on [{sub: "u2"}] the result has an
    [address] property (undefined) and no [extensions] property, so it is
    not [{id: "u2", name: undefined, email: undefined, image: undefined,
    extensions: {}}]. *)
Lemma profile_sub_only_has_no_extensions :
  (∃ out,
     returns_object (profile 0) (State [ {[ "sub" := VStr "u2" ]} ] ∅ []) out
     ∧ out !! "address" = Some VUndefined
     ∧ out !! "extensions" = None)
  ∧ ¬ returns_object (profile 0) (State [ {[ "sub" := VStr "u2" ]} ] ∅ [])
        {[ "id" := VStr "u2"; "name" := VUndefined;
           "email" := VUndefined; "image" := VUndefined;
           "extensions" := VObj ∅ ]}.
Proof.
  split.
  - eexists. split; [by apply profile_returns|]. split; reflexivity.
  - intros Hclaimed.
    eapply returns_object_unique in Hclaimed;
      [|by apply profile_returns].
    apply (f_equal (λ o : object, o !! "extensions")) in Hclaimed.
    discriminate Hclaimed.
Qed.

(** C9.  Two calls of [profile], in any two states, on claims objects with
    the same contents return objects with the same contents: the rest of the
    heap, the environment and the history have no influence.  A call changes
    no object that exists, its argument included; it only allocates its
    result, and it neither reads nor changes the environment. *)
Theorem profile_pure (s1 s2 : state) (p1 p2 : loc) (claims : object) :
  heap s1 !! p1 = Some claims →
  heap s2 !! p2 = Some claims →
  ∃ r1 s1' r2 s2' out,
    profile p1 s1 = (Normal r1, s1')
    ∧ profile p2 s2 = (Normal r2, s2')
    ∧ heap s1' !! r1 = Some out
    ∧ heap s2' !! r2 = Some out
    ∧ heap s1' !! p1 = Some claims
    ∧ heap s2' !! p2 = Some claims
    ∧ (∀ l o, heap s1 !! l = Some o → heap s1' !! l = Some o)
    ∧ (∀ l o, heap s2 !! l = Some o → heap s2' !! l = Some o)
    ∧ heap s1 !! r1 = None
    ∧ heap s2 !! r2 = None
    ∧ process_env s1' = process_env s1 ∧ env_reads s1' = env_reads s1
    ∧ process_env s2' = process_env s2 ∧ env_reads s2' = env_reads s2.
Proof.
  intros H1 H2.
  eexists _, _, _, _, _.
  split; [by apply profile_eval|]. split; [by apply profile_eval|].
  cbn [heap process_env env_reads].
  assert (Hkeep : ∀ (h : list object) (x : object) l o,
            h !! l = Some o → (h ++ [x])%list !! l = Some o).
  { intros h x l o Hl. by apply lookup_app_l_Some. }
  repeat split.
  - by apply list_lookup_middle.
  - by apply list_lookup_middle.
  - by apply Hkeep.
  - by apply Hkeep.
  - intros l o. apply Hkeep.
  - intros l o. apply Hkeep.
  - by apply lookup_ge_None.
  - by apply lookup_ge_None.
Qed.

Lemma profile_pure_witness :
  ∃ r1 s1' r2 s2' out,
    profile 0 (State [ {[ "sub" := VStr "u1"; "email" := VStr "a@x.com" ]} ] ∅ [])
      = (Normal r1, s1')
    ∧ profile 1 (State [ {[ "clientId" := VStr "abc123" ]};
                         {[ "sub" := VStr "u1"; "email" := VStr "a@x.com" ]} ]
                       {[ KEYP_ENV := "http://localhost:4000" ]} [KEYP_ENV])
      = (Normal r2, s2')
    ∧ heap s1' !! r1 = Some out
    ∧ heap s2' !! r2 = Some out
    ∧ heap s1' !! 0 = Some {[ "sub" := VStr "u1"; "email" := VStr "a@x.com" ]}
    ∧ heap s2' !! 1 = Some {[ "sub" := VStr "u1"; "email" := VStr "a@x.com" ]}.
Proof.
  destruct (profile_pure
              (State [ {[ "sub" := VStr "u1"; "email" := VStr "a@x.com" ]} ] ∅ [])
              (State [ {[ "clientId" := VStr "abc123" ]};
                       {[ "sub" := VStr "u1"; "email" := VStr "a@x.com" ]} ]
                     {[ KEYP_ENV := "http://localhost:4000" ]} [KEYP_ENV])
              0 1 _ eq_refl eq_refl)
    as (r1 & s1' & r2 & s2' & out & E1 & E2 & O1 & O2 & I1 & I2 & _).
  exists r1, s1', r2, s2', out. repeat split; assumption.
Defined.

(** C10.  The object that [profile] returns has exactly the five properties
    [id], [name], [email], [image] and [address], which hold the claims
    [sub], [username], [email], [imageSrc] and [address].  No other claim
    has any part in it: adding or changing a claim of another name, such as
    [locale], leaves the result as it is. *)
Theorem profile_five_fields (s : state) (p : loc) (claims : object) :
  heap s !! p = Some claims →
  ∃ out, returns_object (profile p) s out
    ∧ out = {[ "id" := get claims "sub";
               "name" := get claims "username";
               "email" := get claims "email";
               "image" := get claims "imageSrc";
               "address" := get claims "address" ]}
    ∧ dom out = {[ "id"; "name"; "email"; "image"; "address" ]}
    ∧ (∀ k, k ∉ ["id"; "name"; "email"; "image"; "address"] → out !! k = None)
    ∧ (∀ k v, k ∉ claim_names →
         returns_object (profile p)
           (State (<[p := <[k := v]> claims]> (heap s)) (process_env s) (env_reads s))
           out).
Proof.
  intros H. eexists. split; [by apply profile_returns|].
  split; [reflexivity|]. split; [|split].
  - rewrite !dom_insert_L, dom_singleton_L. set_solver.
  - intros k Hk. rewrite !not_elem_of_cons in Hk.
    destruct Hk as (? & ? & ? & ? & ? & _).
    rewrite !lookup_insert_ne by done. by apply lookup_singleton_ne.
  - intros k v Hk. unfold claim_names in Hk. rewrite !not_elem_of_cons in Hk.
    destruct Hk as (? & ? & ? & ? & ? & _).
    assert (Hget : ∀ n, k ≠ n → get (<[k := v]> claims) n = get claims n).
    { intros n Hn. unfold get. by rewrite lookup_insert_ne. }
    rewrite <- (Hget "sub"), <- (Hget "username"), <- (Hget "email"),
      <- (Hget "imageSrc"), <- (Hget "address") by done.
    apply profile_returns. cbn [heap].
    apply list_lookup_insert_eq. by eapply lookup_lt_Some.
Qed.

Lemma profile_five_fields_witness :
  ∃ out,
    returns_object (profile 0)
      (State [ {[ "sub" := VStr "u1"; "username" := VStr "alice" ]} ] ∅ []) out
    ∧ out = {[ "id" := VStr "u1"; "name" := VStr "alice";
               "email" := VUndefined; "image" := VUndefined;
               "address" := VUndefined ]}
    ∧ returns_object (profile 0)
        (State [ {[ "locale" := VStr "en"; "sub" := VStr "u1";
                    "username" := VStr "alice" ]} ] ∅ []) out.
Proof.
  destruct (profile_five_fields
              (State [ {[ "sub" := VStr "u1"; "username" := VStr "alice" ]} ] ∅ [])
              0 _ eq_refl) as (out & Hrun & Hout & _ & _ & Hother).
  exists out. split; [exact Hrun|]. split; [exact Hout|].
  apply (Hother "locale" (VStr "en")). unfold claim_names.
  rewrite !not_elem_of_cons. repeat split; try discriminate.
  apply not_elem_of_nil.
Defined.

(** ** Further properties of the descriptor builder *)

(** Facts on string concatenation, as used by the template literal of
    [wellKnown]. *)
Lemma append_String (c : Ascii.ascii) (a b : string) :
  String c a ++ b = String c (a ++ b).
Proof. reflexivity. Qed.

Lemma append_assoc (a b c : string) : (a ++ b) ++ c = a ++ (b ++ c).
Proof.
  induction a as [|x a IH]; [reflexivity|].
  by rewrite !append_String, IH.
Qed.

Lemma length_append (a b : string) :
  String.length (a ++ b) = String.length a + String.length b.
Proof.
  induction a as [|x a IH]; [reflexivity|].
  rewrite append_String. cbn. by rewrite IH.
Qed.

Lemma append_nonempty_r (a b : string) : b ≠ "" → a ++ b ≠ "".
Proof. destruct a; [done|]. intros _. by rewrite append_String. Qed.

Lemma or_else_nonempty (e : option string) (d : string) :
  d ≠ "" → or_else e d ≠ "".
Proof.
  intros Hd. unfold or_else. destruct e as [v|]; [|done].
  destruct (String.eqb_spec v ""); done.
Qed.



(** X2.  The negotiated scope is never empty: it is always a truthy value,
    and when [config.scope] is a string, [undefined] or absent (the type
    the source gives it) it is a non-empty string. *)
Theorem Keyp_scope_never_empty (s : state) (config : loc) (cfg : object) :
  heap s !! config = Some cfg →
  ∃ d s', Keyp config s = (Normal d, s')
    ∧ ToBoolean (scope (params (authorization d))) = true
    ∧ scope (params (authorization d)) ≠ VStr ""
    ∧ scope (params (authorization d)) ≠ VUndefined
    ∧ ((cfg !! "scope" = None ∨ cfg !! "scope" = Some VUndefined
          ∨ ∃ str, cfg !! "scope" = Some (VStr str)) →
       ∃ str, str ≠ "" ∧ scope (params (authorization d)) = VStr str).
Proof.
  intros H. keyp_result H.
  assert (Ht : ToBoolean (if ToBoolean (get cfg "scope") then get cfg "scope"
                          else VStr defaultScope) = true).
  { destruct (ToBoolean (get cfg "scope")) eqn:E; [exact E | reflexivity]. }
  split; [exact Ht|]. split; [|split].
  - intros Heq. rewrite Heq in Ht. discriminate Ht.
  - intros Heq. rewrite Heq in Ht. discriminate Ht.
  - unfold get. intros [-> | [-> | [str ->]]]; cbn.
    + exists "openid email". by split.
    + exists "openid email". by split.
    + destruct (String.eqb_spec str "") as [->|Hne]; cbn.
      * exists "openid email". by split.
      * exists str. by split.
Qed.

Lemma Keyp_scope_never_empty_witness :
  ∃ d s',
    Keyp 0 (State [ {[ "clientId" := VStr "abc123"; "scope" := VStr "" ]} ] ∅ [])
      = (Normal d, s')
    ∧ ToBoolean (scope (params (authorization d))) = true
    ∧ ∃ str, str ≠ "" ∧ scope (params (authorization d)) = VStr str.
Proof.
  destruct (Keyp_scope_never_empty
              (State [ {[ "clientId" := VStr "abc123"; "scope" := VStr "" ]} ] ∅ [])
              0 _ eq_refl) as (d & s' & Hrun & Ht & _ & _ & Hstr).
  exists d, s'. split; [exact Hrun|]. split; [exact Ht|].
  apply Hstr. right; right. exists "". reflexivity.
Defined.

(** X3.  The discovery URL is never a bare path: it is the well-known path
    appended to a non-empty domain, which is either the value of the
    variable or the default. *)
Theorem Keyp_wellKnown_shape (s : state) (config : loc) (cfg : object) :
  heap s !! config = Some cfg →
  ∃ d s' domain, Keyp config s = (Normal d, s')
    ∧ wellKnown d = domain ++ WELL_KNOWN_PATH
    ∧ domain ≠ ""
    ∧ (process_env s !! KEYP_ENV = Some domain
       ∨ domain = "https://api.usekeyp.com")
    ∧ wellKnown d ≠ WELL_KNOWN_PATH.
Proof.
  intros H. keyp_run H. eexists _, _, _. split; [reflexivity|].
  cbn [wellKnown]. split; [reflexivity|].
  assert (Hne : or_else (process_env s !! KEYP_ENV) "https://api.usekeyp.com" ≠ "")
    by by apply or_else_nonempty.
  split; [exact Hne|]. split.
  - unfold or_else. destruct (process_env s !! KEYP_ENV) as [v|]; [|by right].
    destruct (String.eqb_spec v ""); [by right | by left].
  - intros Heq. apply (f_equal String.length) in Heq.
    rewrite length_append in Heq.
    destruct (or_else _ _); [done|]. cbn in Heq. lia.
Qed.

Lemma Keyp_wellKnown_shape_witness :
  ∃ d s' domain,
    Keyp 0 (State [ {[ "clientId" := VStr "abc123" ]} ] {[ KEYP_ENV := "" ]} [])
      = (Normal d, s')
    ∧ wellKnown d = domain ++ WELL_KNOWN_PATH
    ∧ domain ≠ "".
Proof.
  destruct (Keyp_wellKnown_shape
              (State [ {[ "clientId" := VStr "abc123" ]} ] {[ KEYP_ENV := "" ]} [])
              0 _ eq_refl) as (d & s' & domain & Hrun & Hw & Hne & _).
  exists d, s', domain. repeat split; assumption.
Defined.

(** X4.  The value of the variable is used as it is: when it ends in a
    slash, the discovery URL has two slashes before [oauth]. *)
Theorem Keyp_trailing_slash_kept (s : state) (config : loc) (cfg : object)
    (base : string) :
  heap s !! config = Some cfg →
  process_env s !! KEYP_ENV = Some (base ++ "/") →
  ∃ d s', Keyp config s = (Normal d, s')
    ∧ wellKnown d = base ++ "//oauth/.well-known/openid-configuration".
Proof.
  intros H Henv. keyp_result H. rewrite Henv. cbn [or_else].
  destruct (String.eqb_spec (base ++ "/") "") as [Hempty|_].
  - by apply append_nonempty_r in Hempty.
  - by rewrite append_assoc.
Qed.

Lemma Keyp_trailing_slash_kept_witness :
  ∃ d s',
    Keyp 0 (State [ {[ "clientId" := VStr "abc123" ]} ]
                  {[ KEYP_ENV := "http://localhost:4000/" ]} [])
      = (Normal d, s')
    ∧ wellKnown d = "http://localhost:4000//oauth/.well-known/openid-configuration".
Proof.
  exact (Keyp_trailing_slash_kept
           (State [ {[ "clientId" := VStr "abc123" ]} ]
                  {[ KEYP_ENV := "http://localhost:4000/" ]} [])
           0 _ "http://localhost:4000" eq_refl eq_refl).
Defined.

(** X5.  The environment reaches the discovery URL only: built from one
    configuration object under any two environments, two descriptors agree
    on every property but [wellKnown]. *)
Theorem Keyp_env_reaches_wellKnown_only (s1 s2 : state) (config : loc) (cfg : object) :
  heap s1 !! config = Some cfg →
  heap s2 !! config = Some cfg →
  ∃ d1 s1' d2 s2',
    Keyp config s1 = (Normal d1, s1')
    ∧ Keyp config s2 = (Normal d2, s2')
    ∧ with_wellKnown d1 "" = with_wellKnown d2 "".
Proof.
  intros H1 H2. keyp_run H1. keyp_run H2.
  eexists _, _, _, _. split; [reflexivity|]. split; reflexivity.
Qed.

Lemma Keyp_env_reaches_wellKnown_only_witness :
  ∃ d1 s1' d2 s2',
    Keyp 0 (State [ {[ "clientId" := VStr "abc123" ]} ] ∅ []) = (Normal d1, s1')
    ∧ Keyp 0 (State [ {[ "clientId" := VStr "abc123" ]} ]
                    {[ KEYP_ENV := "http://localhost:4000" ]} [])
        = (Normal d2, s2')
    ∧ with_wellKnown d1 "" = with_wellKnown d2 ""
    ∧ wellKnown d1 ≠ wellKnown d2.
Proof.
  destruct (Keyp_env_reaches_wellKnown_only
              (State [ {[ "clientId" := VStr "abc123" ]} ] ∅ [])
              (State [ {[ "clientId" := VStr "abc123" ]} ]
                     {[ KEYP_ENV := "http://localhost:4000" ]} [])
              0 _ eq_refl eq_refl) as (d1 & s1' & d2 & s2' & E1 & E2 & Heq).
  exists d1, s1', d2, s2'. split; [exact E1|]. split; [exact E2|].
  split; [exact Heq|].
  injection E1 as <- _. injection E2 as <- _. discriminate.
Defined.

(** X6.  Of the configuration, only [clientId] and [scope] reach the
    properties that [Keyp] fills in: two configurations that agree on these
    two, whatever else they hold ([redirectUrl] for one), give under one
    value of the variable descriptors that differ in [options] at most. *)
Theorem Keyp_reads_clientId_and_scope_only
    (s1 s2 : state) (c1 c2 : loc) (cfg1 cfg2 : object) :
  heap s1 !! c1 = Some cfg1 →
  heap s2 !! c2 = Some cfg2 →
  get cfg1 "clientId" = get cfg2 "clientId" →
  get cfg1 "scope" = get cfg2 "scope" →
  process_env s1 !! KEYP_ENV = process_env s2 !! KEYP_ENV →
  ∃ d1 s1' d2 s2',
    Keyp c1 s1 = (Normal d1, s1')
    ∧ Keyp c2 s2 = (Normal d2, s2')
    ∧ with_options d1 () = with_options d2 ().
Proof.
  intros H1 H2 Hid Hscope Henv. keyp_run H1. keyp_run H2.
  eexists _, _, _, _. split; [reflexivity|]. split; [reflexivity|].
  unfold with_options. cbn. by rewrite Hid, Hscope, Henv.
Qed.

Lemma Keyp_reads_clientId_and_scope_only_witness :
  ∃ d1 s1' d2 s2',
    Keyp 0 (State [ {[ "clientId" := VStr "abc123" ]} ] ∅ []) = (Normal d1, s1')
    ∧ Keyp 0 (State [ {[ "clientId" := VStr "abc123";
                         "redirectUrl" := VStr "https://example.com/api/auth/callback/keyp";
                         "scope" := VUndefined ]} ] ∅ [])
        = (Normal d2, s2')
    ∧ with_options d1 () = with_options d2 ().
Proof.
  destruct (Keyp_reads_clientId_and_scope_only
              (State [ {[ "clientId" := VStr "abc123" ]} ] ∅ [])
              (State [ {[ "clientId" := VStr "abc123";
                          "redirectUrl" := VStr "https://example.com/api/auth/callback/keyp";
                          "scope" := VUndefined ]} ] ∅ [])
              0 0 _ _ eq_refl eq_refl) as (d1 & s1' & d2 & s2' & E1 & E2 & Heq);
    [reflexivity | reflexivity | reflexivity |].
  exists d1, s1', d2, s2'. repeat split; assumption.
Defined.

(** X7.  [clientId] and [scope] are copied when the descriptor is built,
    whereas [options] is the configuration object itself.  Any property of
    the configuration, [redirectUrl] included, can be read through
    [options]; and if the configuration object is changed afterwards, a read
    through [options] sees the new contents, while [clientId] keeps the
    value it had at build time. *)
Theorem Keyp_options_is_config (s : state) (config : loc) (cfg : object) :
  heap s !! config = Some cfg →
  ∃ d s', Keyp config s = (Normal d, s')
    ∧ options d = config
    ∧ (∀ k, Get (options d) k s' = (Normal (get cfg k), s'))
    ∧ (∀ cfg' k,
         Get (options d) k
           (State (<[config := cfg']> (heap s')) (process_env s') (env_reads s'))
         = (Normal (get cfg' k),
            State (<[config := cfg']> (heap s')) (process_env s') (env_reads s')))
    ∧ clientId d = get cfg "clientId".
Proof.
  intros H. keyp_result H. split; [reflexivity|]. split; [|split].
  - intros k. by apply Get_eval.
  - intros cfg' k. apply Get_eval. cbn [heap].
    apply list_lookup_insert_eq. by eapply lookup_lt_Some.
  - reflexivity.
Qed.

Lemma Keyp_options_is_config_witness :
  ∃ d s',
    Keyp 0 (State [ {[ "clientId" := VStr "abc123";
                       "redirectUrl" := VStr "https://example.com/api/auth/callback/keyp" ]} ]
                  ∅ [])
      = (Normal d, s')
    ∧ Get (options d) "redirectUrl" s'
      = (Normal (VStr "https://example.com/api/auth/callback/keyp"), s')
    ∧ fst (Get (options d) "clientId"
             (State (<[0 := {[ "clientId" := VStr "other" ]}]> (heap s'))
                    (process_env s') (env_reads s')))
      = Normal (VStr "other")
    ∧ clientId d = VStr "abc123".
Proof.
  destruct (Keyp_options_is_config
              (State [ {[ "clientId" := VStr "abc123";
                          "redirectUrl" := VStr "https://example.com/api/auth/callback/keyp" ]} ]
                     ∅ [])
              0 _ eq_refl) as (d & s' & Hrun & _ & Hread & Hlater & Hid).
  exists d, s'. split; [exact Hrun|]. split; [exact (Hread "redirectUrl")|].
  split; [| exact Hid].
  by rewrite (Hlater {[ "clientId" := VStr "other" ]} "clientId").
Defined.

(** X8.  Building the descriptor and then calling its [profile] method on a
    claims object returns a new object that holds the five mapped claims,
    whatever the configuration and the environment were.  The configuration
    and the claims are left as they were, and over the two calls the
    environment was read exactly once. *)
Theorem Keyp_then_profile (s : state) (config p : loc) (cfg claims : object) :
  heap s !! config = Some cfg →
  heap s !! p = Some claims →
  ∃ r s',
    (let* d := Keyp config in profile_fn d p) s = (Normal r, s')
    ∧ heap s' !! r = Some {[ "id" := get claims "sub";
                            "name" := get claims "username";
                            "email" := get claims "email";
                            "image" := get claims "imageSrc";
                            "address" := get claims "address" ]}
    ∧ r ≠ config ∧ r ≠ p
    ∧ heap s' !! config = Some cfg
    ∧ heap s' !! p = Some claims
    ∧ env_reads s' = (env_reads s ++ [KEYP_ENV])%list.
Proof.
  intros Hc Hp. unfold bind at 1. keyp_run Hc. cbn [profile_fn].
  rewrite (profile_eval _ p claims) by exact Hp.
  cbn [heap process_env env_reads].
  eexists _, _. split; [reflexivity|]. cbn [heap env_reads].
  apply lookup_lt_Some in Hc as Hc'. apply lookup_lt_Some in Hp as Hp'.
  repeat split.
  - by apply list_lookup_middle.
  - lia.
  - lia.
  - by apply lookup_app_l_Some.
  - by apply lookup_app_l_Some.
Qed.

Lemma Keyp_then_profile_witness :
  ∃ r s',
    (let* d := Keyp 0 in profile_fn d 1)
      (State [ {[ "clientId" := VStr "abc123" ]};
               {[ "sub" := VStr "u1"; "username" := VStr "alice" ]} ] ∅ [])
      = (Normal r, s')
    ∧ heap s' !! r = Some {[ "id" := VStr "u1"; "name" := VStr "alice";
                            "email" := VUndefined; "image" := VUndefined;
                            "address" := VUndefined ]}
    ∧ env_reads s' = [KEYP_ENV].
Proof.
  destruct (Keyp_then_profile
              (State [ {[ "clientId" := VStr "abc123" ]};
                       {[ "sub" := VStr "u1"; "username" := VStr "alice" ]} ] ∅ [])
              0 1 _ _ eq_refl eq_refl)
    as (r & s' & Hrun & Hout & _ & _ & _ & _ & Hreads).
  exists r, s'. repeat split; assumption.
Defined.

(** ** Further properties of the profile mapping *)

(** What the five reads of [profile] find in an object that [profile]
    built, and how that object determines the values it was built from. *)
Lemma get_result_of (a b c d e : value) :
  get (result_of a b c d e) "sub" = VUndefined
  ∧ get (result_of a b c d e) "username" = VUndefined
  ∧ get (result_of a b c d e) "email" = c
  ∧ get (result_of a b c d e) "imageSrc" = VUndefined
  ∧ get (result_of a b c d e) "address" = e.
Proof. vm_compute. done. Qed.

Lemma result_of_inj (a b c d e a' b' c' d' e' : value) :
  result_of a b c d e = result_of a' b' c' d' e' →
  a = a' ∧ b = b' ∧ c = c' ∧ d = d' ∧ e = e'.
Proof.
  intros H.
  pose proof (f_equal (λ o : object, o !! "id") H) as Ha.
  pose proof (f_equal (λ o : object, o !! "name") H) as Hb.
  pose proof (f_equal (λ o : object, o !! "email") H) as Hc.
  pose proof (f_equal (λ o : object, o !! "image") H) as Hd.
  pose proof (f_equal (λ o : object, o !! "address") H) as He.
  vm_compute in Ha, Hb, Hc, Hd, He. by simplify_eq.
Qed.

(** X9.  The mapping is not a projection: applied to its own result it reads
    [sub], [username] and [imageSrc], which that result does not have, so
    only [email] and [address] survive and [id], [name] and [image] become
    [undefined]. *)
Theorem profile_twice (s : state) (p : loc) (claims : object) :
  heap s !! p = Some claims →
  ∃ r s',
    (let* once := profile p in profile once) s = (Normal r, s')
    ∧ heap s' !! r = Some {[ "id" := VUndefined; "name" := VUndefined;
                            "email" := get claims "email";
                            "image" := VUndefined;
                            "address" := get claims "address" ]}.
Proof.
  intros H. unfold bind. rewrite (profile_eval _ _ _ H).
  erewrite profile_eval by (cbn [heap]; by apply list_lookup_middle).
  destruct (get_result_of (get claims "sub") (get claims "username")
              (get claims "email") (get claims "imageSrc")
              (get claims "address")) as (-> & -> & -> & -> & ->).
  eexists _, _. split; [reflexivity|].
  cbn [heap]. by apply list_lookup_middle.
Qed.

Lemma profile_twice_witness :
  ∃ r s',
    (let* once := profile 0 in profile once)
      (State [ {[ "sub" := VStr "u1"; "username" := VStr "alice";
                  "email" := VStr "a@x.com";
                  "imageSrc" := VStr "https://x/img.png";
                  "address" := VStr "0xabc" ]} ] ∅ [])
      = (Normal r, s')
    ∧ heap s' !! r = Some {[ "id" := VUndefined; "name" := VUndefined;
                            "email" := VStr "a@x.com";
                            "image" := VUndefined;
                            "address" := VStr "0xabc" ]}.
Proof.
  exact (profile_twice
           (State [ {[ "sub" := VStr "u1"; "username" := VStr "alice";
                       "email" := VStr "a@x.com";
                       "imageSrc" := VStr "https://x/img.png";
                       "address" := VStr "0xabc" ]} ] ∅ [])
           0 _ eq_refl).
Defined.

(** X10.  The mapping loses nothing of the five claims it reads and keeps
    nothing else: two claims objects are mapped to equal results exactly
    when they agree on [sub], [username], [email], [imageSrc] and
    [address], a missing claim counting as [undefined]. *)
Theorem profile_results_equal_iff
    (s1 s2 : state) (p1 p2 : loc) (claims1 claims2 : object) :
  heap s1 !! p1 = Some claims1 →
  heap s2 !! p2 = Some claims2 →
  ∃ out1 out2,
    returns_object (profile p1) s1 out1
    ∧ returns_object (profile p2) s2 out2
    ∧ (out1 = out2 ↔ ∀ k, k ∈ claim_names → get claims1 k = get claims2 k).
Proof.
  intros H1 H2. eexists _, _.
  split; [by apply profile_returns|]. split; [by apply profile_returns|].
  clear. split.
  - intros (Ha & Hb & Hc & Hd & He)%result_of_inj k Hk.
    unfold claim_names in Hk.
    repeat (apply elem_of_cons in Hk as [-> | Hk]); try assumption.
    by apply elem_of_nil in Hk.
  - intros Hall.
    rewrite (Hall "sub"), (Hall "username"), (Hall "email"),
      (Hall "imageSrc"), (Hall "address"); [reflexivity|..];
      unfold claim_names; by repeat constructor.
Qed.

Lemma profile_results_equal_iff_witness :
  ∃ out1 out2,
    returns_object (profile 0)
      (State [ {[ "sub" := VStr "u1"; "locale" := VStr "en" ]} ] ∅ []) out1
    ∧ returns_object (profile 1)
        (State [ ∅; {[ "sub" := VStr "u1"; "email" := VUndefined ]} ] ∅ []) out2
    ∧ out1 = out2.
Proof.
  destruct (profile_results_equal_iff
              (State [ {[ "sub" := VStr "u1"; "locale" := VStr "en" ]} ] ∅ [])
              (State [ ∅; {[ "sub" := VStr "u1"; "email" := VUndefined ]} ] ∅ [])
              0 1 _ _ eq_refl eq_refl) as (out1 & out2 & R1 & R2 & Hiff).
  exists out1, out2. split; [exact R1|]. split; [exact R2|].
  apply Hiff. intros k Hk. unfold claim_names in Hk.
  repeat (apply elem_of_cons in Hk as [-> | Hk]); try reflexivity.
  by apply elem_of_nil in Hk.
Defined.

(** X11.  Results are not shared between calls: two calls in a row on one
    claims object return two different new objects with the same contents,
    neither of which is the claims object, and the claims object is as it
    was. *)
Theorem profile_fresh_each_call (s : state) (p : loc) (claims : object) :
  heap s !! p = Some claims →
  ∃ r1 r2 s' out,
    (let* first := profile p in
     let* second := profile p in
     ret (first, second)) s = (Normal (r1, r2), s')
    ∧ r1 ≠ r2 ∧ r1 ≠ p ∧ r2 ≠ p
    ∧ heap s' !! r1 = Some out
    ∧ heap s' !! r2 = Some out
    ∧ heap s' !! p = Some claims
    ∧ length (heap s') = length (heap s) + 2.
Proof.
  intros H. unfold bind, ret. rewrite (profile_eval _ _ _ H).
  apply lookup_lt_Some in H as Hlt.
  erewrite profile_eval by (cbn [heap]; by apply lookup_app_l_Some).
  eexists _, _, _, _. split; [reflexivity|]. cbn [heap].
  rewrite !length_app. cbn [length].
  split; [lia|]. split; [lia|]. split; [lia|]. split; [|split; [|split]].
  - apply lookup_app_l_Some. by apply list_lookup_middle.
  - apply list_lookup_middle. rewrite length_app. cbn [length]. lia.
  - by do 2 apply lookup_app_l_Some.
  - lia.
Qed.

Lemma profile_fresh_each_call_witness :
  ∃ r1 r2 s' out,
    (let* first := profile 0 in
     let* second := profile 0 in
     ret (first, second))
      (State [ {[ "sub" := VStr "u1" ]} ] ∅ []) = (Normal (r1, r2), s')
    ∧ r1 ≠ r2
    ∧ heap s' !! r1 = Some out
    ∧ heap s' !! r2 = Some out.
Proof.
  destruct (profile_fresh_each_call
              (State [ {[ "sub" := VStr "u1" ]} ] ∅ []) 0 _ eq_refl)
    as (r1 & r2 & s' & out & Hrun & Hne & _ & _ & O1 & O2 & _).
  exists r1, r2, s', out. repeat split; assumption.
Defined.
